(** * clog: the command-line entry point

    A shallow embedding of [src/main.c].  The program is one function,
    [main], which compares [argc] with 3 and then calls [puts] once or
    [printf] twice.  The C library calls are modelled as computations in a
    state-and-failure monad over the part of the process environment that a
    C program can observe or change; [main] itself is transcribed statement
    by statement. *)

From Stdlib Require Import ZArith String Ascii DecimalString List Bool Lia.
From ExtLib Require Import Structures.Monad Structures.MonadState.
From ExtLib Require Import Data.Monads.StateMonad Data.Monads.OptionMonad.
Import ListNotations.
Import MonadNotation.

#[local] Open Scope Z_scope.
#[local] Open Scope string_scope.
#[local] Open Scope monad_scope.
#[local] Existing Instance Monad_stateT.

(** ** Characters and C strings *)

(** The string terminator ['\0'] and the newline ['\n']. *)
Definition NUL : ascii := Ascii.zero.
Definition LF : string := String (ascii_of_nat 10) EmptyString.

(** A [char *] is either the null pointer or points at a buffer.  Only the
    bytes of the buffer are kept; a terminator is understood to follow
    them, as it does after every element of [argv] and every literal. *)
Inductive cptr : Type :=
  | NULL
  | Ptr (buf : string).

(** The characters a C library routine sees when it walks [buf] as a
    string: everything before the first terminator. *)
Fixpoint c_str (buf : string) : string :=
  match buf with
  | EmptyString => EmptyString
  | String c rest =>
      if Ascii.eqb c NUL then EmptyString else String c (c_str rest)
  end.

(** A token handed over by the process loader has no terminator inside
    it: [execve] cuts every argument at its first ['\0']. *)
Fixpoint nul_free (s : string) : bool :=
  match s with
  | EmptyString => true
  | String c rest => negb (Ascii.eqb c NUL) && nul_free rest
  end.

(** ** The process environment *)

Record world : Type := mkWorld {
  w_stdin   : string;                   (* bytes still unread on stream 0 *)
  w_stdout  : string;                   (* bytes written so far to stream 1 *)
  w_stderr  : string;                   (* bytes written so far to stream 2 *)
  w_files   : list (string * string);   (* file system: path, contents *)
  w_environ : list (string * string);   (* environment: name, value *)
  w_net     : list string               (* datagrams sent so far *)
}.

(** Appending [out] to standard output; every other component is kept. *)
Definition emit (out : string) (w : world) : world :=
  {| w_stdin   := w_stdin w;
     w_stdout  := w_stdout w ++ out;
     w_stderr  := w_stderr w;
     w_files   := w_files w;
     w_environ := w_environ w;
     w_net     := w_net w |}.

(** Computations of the C program: they thread the [world] and may have
    no defined result (undefined behaviour), which is [None]. *)
Definition libc : Type -> Type := stateT world option.

Definition undefined {A : Type} : libc A := mkStateT (fun _ => None).

Definition write_stdout (out : string) : libc unit :=
  w <- get ;;
  put (emit out w).

(** ** The two library routines that [main] calls *)

(** [int puts(const char *s)]: writes the string and a newline to
    [stdout]; the value returned is the number of bytes written. *)
Definition puts (s : string) : libc Z :=
  let out := c_str s ++ LF in
  write_stdout out ;;
  ret (Z.of_nat (String.length out)).

(** Variadic arguments after the default promotions. *)
Inductive vararg : Type :=
  | VInt (n : Z)
  | VStr (p : cptr).

Definition percent : ascii := "%"%char.

(** The text of one conversion.  [%s] takes a non-null [char *] and copies
    the string it points to, [%d] takes an [int] and writes it in decimal.
    A mismatched or missing argument, a null pointer under [%s] and every
    other conversion character have no result. *)
Definition conversion (c : ascii) (args : list vararg)
  : option (string * list vararg) :=
  if Ascii.eqb c "s" then
    match args with
    | VStr (Ptr buf) :: args' => Some (c_str buf, args')
    | _ => None
    end
  else if Ascii.eqb c "d" then
    match args with
    | VInt n :: args' =>
        Some (DecimalString.NilZero.string_of_int (Z.to_int n), args')
    | _ => None
    end
  else None.

(** The text [printf] produces for a format and its arguments.  Only the
    format is scanned for directives; ordinary characters are copied,
    [%%] gives one percent sign, and arguments left over at the end of the
    format are ignored. *)
Fixpoint format (fmt : string) (args : list vararg) : option string :=
  match fmt with
  | EmptyString => Some EmptyString
  | String c rest =>
      if Ascii.eqb c percent then
        match rest with
        | EmptyString => None
        | String d rest' =>
            if Ascii.eqb d percent then
              option_map (String percent) (format rest' args)
            else
              match conversion d args with
              | Some (txt, args') =>
                  option_map (append txt) (format rest' args')
              | None => None
              end
        end
      else option_map (String c) (format rest args)
  end.

(** [int printf(const char *format, ...)]: writes the formatted text to
    [stdout] and returns the number of bytes written. *)
Definition printf (fmt : string) (args : list vararg) : libc Z :=
  match format (c_str fmt) args with
  | Some out =>
      write_stdout out ;;
      ret (Z.of_nat (String.length out))
  | None => undefined
  end.

(** ** The argument vector *)

(** [argv[i]].  Elements [0 .. argc-1] point at the tokens, [argv[argc]]
    is the null pointer, and any other index lies outside the array. *)
Definition argv_at (argv : list string) (i : Z) : libc cptr :=
  if (i <? 0)%Z then undefined
  else
    match nth_error argv (Z.to_nat i) with
    | Some tok => ret (Ptr tok)
    | None =>
        if (i =? Z.of_nat (List.length argv))%Z then ret NULL else undefined
    end.

(** ** The program *)

Definition usage : string := "Usage: clog <input dir> <output dir>".

(** [int main(int argc, char **argv)], [src/main.c] lines 3-13.  The
    value returned is the exit status of the process. *)
Definition main (argc : Z) (argv : list string) : libc Z :=
  if (argc <? 3)%Z then
    puts usage ;;
    ret 1
  else
    input_dir <- argv_at argv 1 ;;
    output_dir <- argv_at argv 2 ;;
    printf ("input dir: %s" ++ LF) [VStr input_dir] ;;
    printf ("output dir: %s" ++ LF) [VStr output_dir] ;;
    ret 0.

(** Process start-up: the loader passes the argument list [args]
    (invocation name first) as [argv] and its length as [argc].  The
    kernel refuses an [execve] with more than [INT_MAX] strings, so the
    count always fits the [int]. *)
Definition start (args : list string) : libc Z :=
  main (Z.of_nat (List.length args)) args.

(** Running the program in world [w]: the exit status and the world it
    leaves, or [None] when the behaviour is undefined. *)
Definition run (args : list string) (w : world) : option (Z * world) :=
  runStateT (start args) w.

(** The positional arguments: the tokens after the invocation name. *)
Definition positional (args : list string) : list string := tl args.

(** An argument list the loader can deliver: no token holds a terminator. *)
Definition loadable (args : list string) : bool := forallb nul_free args.

(** The number of newline characters in a text, which is the number of
    lines of a text that ends with one. *)
Fixpoint newlines (s : string) : nat :=
  match s with
  | EmptyString => 0%nat
  | String c rest =>
      ((if Ascii.eqb c (ascii_of_nat 10) then 1 else 0) + newlines rest)%nat
  end.

(** A token that stays on one line. *)
Definition lf_free (s : string) : bool := Nat.eqb (newlines s) 0.

(** A world to run examples in. *)
Definition w0 : world :=
  {| w_stdin   := "typed ahead";
     w_stdout  := "";
     w_stderr  := "";
     w_files   := [("/tmp/in/a.log", "x")];
     w_environ := [("HOME", "/root")];
     w_net     := [] |}.

(** * Properties *)

(** ** Strings *)

Lemma append_assoc (a b c : string) : (a ++ b) ++ c = a ++ (b ++ c).
Proof.
  induction a as [| x a IH]; simpl; [reflexivity | now rewrite IH].
Qed.

Lemma append_inj_r (p a b : string) : p ++ a = p ++ b -> a = b.
Proof.
  induction p as [| x p IH]; simpl; intros H; [exact H |].
  injection H as H. now apply IH.
Qed.

Lemma c_str_nul_free (s : string) : nul_free s = true -> c_str s = s.
Proof.
  induction s as [| c s IH]; simpl; [reflexivity |].
  intros H. apply andb_true_iff in H. destruct H as [Hc Hs].
  apply negb_true_iff in Hc. rewrite Hc, (IH Hs). reflexivity.
Qed.

Lemma newlines_append (a b : string) :
  newlines (a ++ b) = (newlines a + newlines b)%nat.
Proof.
  induction a as [| c a IH]; simpl; [reflexivity | rewrite IH; lia].
Qed.

(** ** The world *)

Lemma emit_emit (a b : string) (w : world) :
  emit b (emit a w) = emit (a ++ b) w.
Proof.
  unfold emit; simpl. now rewrite append_assoc.
Qed.

Lemma emit_inj (a b : string) (w : world) : emit a w = emit b w -> a = b.
Proof.
  intros H. apply (f_equal w_stdout) in H. simpl in H.
  now apply append_inj_r in H.
Qed.

(** ** Running computations *)

Lemma run_bind {A B : Type} (c : libc A) (k : A -> libc B) (w : world) :
  runStateT (bind c k) w
  = match runStateT c w with
    | Some (a, w') => runStateT (k a) w'
    | None => None
    end.
Proof.
  cbn. destruct (runStateT c w) as [[a w'] |]; reflexivity.
Qed.

Lemma run_ret {A : Type} (a : A) (w : world) :
  runStateT (ret a : libc A) w = Some (a, w).
Proof. reflexivity. Qed.

Lemma run_write_stdout (out : string) (w : world) :
  runStateT (write_stdout out) w = Some (tt, emit out w).
Proof. reflexivity. Qed.

Lemma run_puts (s : string) (w : world) :
  runStateT (puts s) w
  = Some (Z.of_nat (String.length (c_str s ++ LF)), emit (c_str s ++ LF) w).
Proof. reflexivity. Qed.

Lemma run_printf (fmt out : string) (args : list vararg) (w : world) :
  format (c_str fmt) args = Some out ->
  runStateT (printf fmt args) w
  = Some (Z.of_nat (String.length out), emit out w).
Proof.
  intros H. unfold printf. rewrite H. reflexivity.
Qed.

Lemma run_argv_at (argv : list string) (i : nat) (tok : string) (w : world) :
  nth_error argv i = Some tok ->
  runStateT (argv_at argv (Z.of_nat i)) w = Some (Ptr tok, w).
Proof.
  intros H. unfold argv_at.
  destruct (Z.ltb_spec (Z.of_nat i) 0) as [Hneg | _]; [lia |].
  rewrite Nat2Z.id, H. reflexivity.
Qed.

(** The formats of [main]: the directive is replaced by the string the
    argument points to, whatever that string holds. *)
Lemma format_input_dir (buf : string) :
  format (c_str ("input dir: %s" ++ LF)) [VStr (Ptr buf)]
  = Some ("input dir: " ++ c_str buf ++ LF).
Proof. reflexivity. Qed.

Lemma format_output_dir (buf : string) :
  format (c_str ("output dir: %s" ++ LF)) [VStr (Ptr buf)]
  = Some ("output dir: " ++ c_str buf ++ LF).
Proof. reflexivity. Qed.

(** ** The two branches of [main] *)

Section Branches.
Variables (argc : Z) (argv : list string) (w : world).

Lemma main_usage :
  argc < 3 ->
  runStateT (main argc argv) w = Some (1, emit (usage ++ LF) w).
Proof.
  intros H. unfold main.
  destruct (Z.ltb_spec argc 3) as [_ | Hge]; [reflexivity | lia].
Qed.

Lemma main_echo (a1 a2 : string) :
  3 <= argc ->
  nth_error argv 1 = Some a1 ->
  nth_error argv 2 = Some a2 ->
  runStateT (main argc argv) w
  = Some (0, emit ("input dir: " ++ c_str a1 ++ LF
                   ++ "output dir: " ++ c_str a2 ++ LF) w).
Proof.
  intros H H1 H2. unfold main.
  destruct (Z.ltb_spec argc 3) as [Hlt | _]; [lia |].
  pose proof (run_argv_at argv 1 a1) as E1.
  pose proof (run_argv_at argv 2 a2) as E2.
  change (Z.of_nat 1) with 1 in E1. change (Z.of_nat 2) with 2 in E2.
  rewrite run_bind, (E1 w H1).
  rewrite run_bind, (E2 w H2).
  rewrite run_bind, (run_printf _ _ _ _ (format_input_dir a1)).
  rewrite run_bind, (run_printf _ _ _ _ (format_output_dir a2)).
  rewrite run_ret, emit_emit.
  do 3 f_equal. simpl. now rewrite append_assoc.
Qed.
End Branches.

(** ** Whole runs *)

Lemma run_lt3 (args : list string) (w : world) :
  (List.length args < 3)%nat ->
  run args w = Some (1, emit (usage ++ LF) w).
Proof.
  intros H. unfold run, start. apply main_usage. lia.
Qed.

Lemma run_ge3 (name a1 a2 : string) (rest : list string) (w : world) :
  run (name :: a1 :: a2 :: rest) w
  = Some (0, emit ("input dir: " ++ c_str a1 ++ LF
                   ++ "output dir: " ++ c_str a2 ++ LF) w).
Proof.
  unfold run, start. apply main_echo; [| reflexivity | reflexivity].
  cbn [List.length]. lia.
Qed.

(** Every run is defined, and its status and output are fixed by the
    argument list alone. *)
Lemma run_shape (args : list string) :
  exists (st : Z) (out : string),
    (st = 0 \/ st = 1) /\
    (st = 1 <-> (List.length args < 3)%nat) /\
    (st = 1 <-> out = usage ++ LF) /\
    out <> "" /\
    forall w : world, run args w = Some (st, emit out w).
Proof.
  destruct args as [| name [| a1 [| a2 rest]]].
  1-3: exists 1, (usage ++ LF);
       (split; [now right | split; [cbn; split; intros; [lia | reflexivity] |
         split; [split; reflexivity |
           split; [discriminate | intros w; apply run_lt3; cbn; lia]]]]).
  exists 0, ("input dir: " ++ c_str a1 ++ LF ++ "output dir: " ++ c_str a2 ++ LF).
  split; [now left |].
  split; [cbn [List.length]; split; intros; lia |].
  split; [split; intros H; discriminate H |].
  split; [discriminate |].
  intros w. apply run_ge3.
Qed.

(** The examples of the specification. *)
Example scenario_1 : run ["clog"] w0 = Some (1, emit (usage ++ LF) w0).
Proof. reflexivity. Qed.

Example scenario_2 : run ["clog"; "foo"] w0 = Some (1, emit (usage ++ LF) w0).
Proof. reflexivity. Qed.

Example scenario_3 :
  run ["clog"; "/tmp/in"; "/tmp/out"] w0
  = Some (0, emit ("input dir: /tmp/in" ++ LF ++ "output dir: /tmp/out" ++ LF) w0).
Proof. reflexivity. Qed.

Example scenario_4 :
  run ["clog"; "a"; "b"; "c"] w0
  = Some (0, emit ("input dir: a" ++ LF ++ "output dir: b" ++ LF) w0).
Proof. reflexivity. Qed.

(** What the model does outside the loader's guarantee: a buffer with an
    embedded terminator is printed up to it. *)
Example embedded_terminator :
  run ["clog"; String "a" (String NUL "b"); "c"] w0
  = Some (0, emit ("input dir: a" ++ LF ++ "output dir: c" ++ LF) w0).
Proof. reflexivity. Qed.

(** Had a token been used as the format, its directives would have been
    acted upon: there is no argument for them to take. *)
Example token_as_format : format (c_str "100%s") [] = None.
Proof. reflexivity. Qed.

(** * The claims *)

(** C1.  An invocation whose argument list has fewer than three tokens
    (no positional argument, or one) writes exactly the line
    [Usage: clog <input dir> <output dir>] and a newline to standard
    output, changes nothing else, and ends with exit status 1. *)
Theorem usage_on_missing_arguments (args : list string) (w : world) :
  (List.length args < 3)%nat ->
  run args w
  = Some (1, emit ("Usage: clog <input dir> <output dir>" ++ LF) w).
Proof.
  intros H. now apply run_lt3.
Qed.

Lemma usage_on_missing_arguments_witness :
  (List.length ["clog"; "foo"] < 3)%nat /\
  run ["clog"; "foo"] w0
  = Some (1, emit ("Usage: clog <input dir> <output dir>" ++ LF) w0).
Proof.
  split; [cbn; lia |].
  apply (usage_on_missing_arguments ["clog"; "foo"] w0). cbn; lia.
Defined.

(** C2, as the code has it.  An invocation whose argument list has at
    least three tokens appends to standard output exactly the text
    [input dir: ], the first positional argument, a newline,
    [output dir: ], the second positional argument and a newline, and ends
    with exit status 0.  That text is exactly two lines when neither of
    the two arguments holds a newline. *)
Theorem echo_on_two_arguments (args : list string) (w : world) :
  loadable args = true ->
  (3 <= List.length args)%nat ->
  run args w
  = Some (0, emit ("input dir: " ++ nth 0 (positional args) "" ++ LF
                   ++ "output dir: " ++ nth 1 (positional args) "" ++ LF) w)
  /\
  (lf_free (nth 0 (positional args) "") = true ->
   lf_free (nth 1 (positional args) "") = true ->
   newlines ("input dir: " ++ nth 0 (positional args) "" ++ LF
             ++ "output dir: " ++ nth 1 (positional args) "" ++ LF)
   = 2%nat).
Proof.
  intros Hl Hn. split.
  - destruct args as [| name [| a1 [| a2 rest]]]; cbn in Hn; try lia.
    cbn in Hl. rewrite !andb_true_iff in Hl.
    destruct Hl as (_ & H1 & H2 & _).
    rewrite run_ge3, (c_str_nul_free a1 H1), (c_str_nul_free a2 H2).
    reflexivity.
  - generalize (nth 0 (positional args) "") (nth 1 (positional args) "").
    intros a1 a2 H1 H2. unfold lf_free in H1, H2.
    apply Nat.eqb_eq in H1. apply Nat.eqb_eq in H2.
    rewrite !newlines_append, H1, H2. reflexivity.
Qed.

Lemma echo_on_two_arguments_witness :
  run ["clog"; "/tmp/in"; "/tmp/out"; "extra"] w0
  = Some (0, emit ("input dir: /tmp/in" ++ LF
                   ++ "output dir: /tmp/out" ++ LF) w0)
  /\
  newlines ("input dir: /tmp/in" ++ LF ++ "output dir: /tmp/out" ++ LF)
  = 2%nat.
Proof.
  destruct (echo_on_two_arguments
              ["clog"; "/tmp/in"; "/tmp/out"; "extra"] w0) as [Hrun Hlines].
  - reflexivity.
  - cbn; lia.
  - split; [exact Hrun | apply Hlines; reflexivity].
Defined.

(** C2 as it was worded does not hold: with a newline inside the first
    positional argument the invocation has three tokens, ends with status
    0, and prints three lines, not two. *)
Lemma exactly_two_lines_counterexample :
  loadable ["clog"; "a" ++ LF ++ "b"; "c"] = true /\
  (3 <= List.length ["clog"; "a" ++ LF ++ "b"; "c"])%nat /\
  run ["clog"; "a" ++ LF ++ "b"; "c"] w0
  = Some (0, emit ("input dir: a" ++ LF ++ "b" ++ LF
                   ++ "output dir: c" ++ LF) w0) /\
  newlines ("input dir: a" ++ LF ++ "b" ++ LF ++ "output dir: c" ++ LF)
  = 3%nat /\
  newlines ("input dir: a" ++ LF ++ "b" ++ LF ++ "output dir: c" ++ LF)
  <> 2%nat.
Proof.
  split; [reflexivity |].
  split; [cbn; lia |].
  split; [reflexivity |].
  split; [reflexivity | discriminate].
Qed.

(** C3.  Every invocation ends with exit status 0 or 1; the status is 1
    exactly when fewer than two positional arguments were supplied, the
    usage message is what was printed exactly in that case, and in every
    other case the status is 0. *)
Theorem exit_status_taxonomy (args : list string) (w : world) :
  exists (st : Z) (w' : world),
    run args w = Some (st, w') /\
    (st = 0 \/ st = 1) /\
    (st = 1 <-> (List.length (positional args) < 2)%nat) /\
    (st = 1 <->
     w' = emit ("Usage: clog <input dir> <output dir>" ++ LF) w) /\
    (~ (List.length (positional args) < 2)%nat -> st = 0).
Proof.
  destruct (run_shape args) as (st & out & H01 & Hlen & Hout & _ & Hrun).
  assert (Hpos : (List.length args < 3)%nat
                 <-> (List.length (positional args) < 2)%nat).
  { destruct args as [| name rest]; cbn; lia. }
  exists st, (emit out w). split; [apply Hrun |].
  split; [exact H01 |].
  split; [now rewrite Hlen, Hpos |].
  split.
  - rewrite Hout. split; [now intros -> | intros H; now apply emit_inj in H].
  - intros Hn. destruct H01 as [H0 | H1]; [exact H0 |].
    exfalso. apply Hn, Hpos, Hlen, H1.
Qed.

Lemma exit_status_taxonomy_witness :
  exists (st : Z) (w' : world),
    run ["clog"; "a"; "b"] w0 = Some (st, w') /\
    (st = 0 \/ st = 1) /\
    (st = 1 <-> (List.length (positional ["clog"; "a"; "b"]) < 2)%nat) /\
    (st = 1 <->
     w' = emit ("Usage: clog <input dir> <output dir>" ++ LF) w0) /\
    (~ (List.length (positional ["clog"; "a"; "b"]) < 2)%nat -> st = 0).
Proof.
  exact (exit_status_taxonomy ["clog"; "a"; "b"] w0).
Defined.

(** C4.  Two invocations whose argument lists agree on the first two
    positional arguments have the same standard output and the same exit
    status, whatever follows the second positional argument. *)
Theorem trailing_arguments_ignored (args1 args2 : list string) (w : world) :
  firstn 2 (positional args1) = firstn 2 (positional args2) ->
  run args1 w = run args2 w.
Proof.
  intros H.
  destruct args1 as [| n1 [| a1 [| a2 r1]]];
    destruct args2 as [| n2 [| b1 [| b2 r2]]];
    cbn in H; try discriminate H;
    rewrite ?run_ge3, ?run_lt3 by (cbn; lia); try reflexivity.
  injection H as -> ->. reflexivity.
Qed.

Lemma trailing_arguments_ignored_witness :
  run ["clog"; "a"; "b"; "c"] w0 = run ["clog"; "a"; "b"; "d"; "e"] w0.
Proof.
  apply (trailing_arguments_ignored
           ["clog"; "a"; "b"; "c"] ["clog"; "a"; "b"; "d"; "e"] w0).
  reflexivity.
Defined.

(** C5.  The program is total: on every argument list the run has a
    defined result (no read outside [argv], no null string under [%s]).
    When [argc] is below 3 the result does not depend on [argv] at all, so
    the reads of [argv[1]] and [argv[2]] belong to the other branch only;
    and every invocation with a missing argument prints the usage line and
    ends with exit status 1. *)
Theorem main_total :
  (forall (args : list string) (w : world),
      exists (st : Z) (w' : world), run args w = Some (st, w')) /\
  (forall (argc : Z) (argv argv' : list string) (w : world),
      argc < 3 ->
      runStateT (main argc argv) w = runStateT (main argc argv') w) /\
  (forall (args : list string) (w : world),
      (List.length args < 3)%nat ->
      run args w = Some (1, emit (usage ++ LF) w)).
Proof.
  split; [| split].
  - intros args w.
    destruct (run_shape args) as (st & out & _ & _ & _ & _ & Hrun).
    exists st, (emit out w). apply Hrun.
  - intros argc argv argv' w H. now rewrite !main_usage.
  - intros args w H. now apply run_lt3.
Qed.

Lemma main_total_witness :
  (exists (st : Z) (w' : world), run [] w0 = Some (st, w')) /\
  runStateT (main 1 ["clog"]) w0 = runStateT (main 1 []) w0 /\
  run ["clog"] w0 = Some (1, emit (usage ++ LF) w0).
Proof.
  destruct main_total as (Htot & Hargv & Husage).
  split; [apply (Htot [] w0) | split].
  - apply (Hargv 1 ["clog"] [] w0). lia.
  - apply (Husage ["clog"] w0). cbn; lia.
Defined.

(** C6.  The only effect of a run is on standard output, and nothing
    else is consulted.  The exit status and the text printed are fixed by
    the argument list before the world is looked at, so they owe nothing
    to pending input, files, environment or network; and in every world
    the run leaves standard input unread, the error stream, the file
    system, the environment and the network as they were, and appends that
    text, the usage message included, to standard output. *)
Theorem stdout_only (args : list string) :
  exists (st : Z) (out : string),
    out <> "" /\
    ((List.length args < 3)%nat ->
     out = "Usage: clog <input dir> <output dir>" ++ LF) /\
    forall w : world,
    exists w' : world,
      run args w = Some (st, w') /\
      w_stdin w' = w_stdin w /\
      w_stderr w' = w_stderr w /\
      w_files w' = w_files w /\
      w_environ w' = w_environ w /\
      w_net w' = w_net w /\
      w_stdout w' = w_stdout w ++ out.
Proof.
  destruct (run_shape args) as (st & out & _ & Hlen & Hout & Hne & Hrun).
  exists st, out.
  split; [exact Hne |].
  split; [intros H; now apply Hout, Hlen |].
  intros w. exists (emit out w).
  split; [apply Hrun |]. repeat split.
Qed.

Lemma stdout_only_witness :
  exists (st : Z) (out : string),
    out <> "" /\
    ((List.length ["clog"] < 3)%nat ->
     out = "Usage: clog <input dir> <output dir>" ++ LF) /\
    forall w : world,
    exists w' : world,
      run ["clog"] w = Some (st, w') /\
      w_stdin w' = w_stdin w /\
      w_stderr w' = w_stderr w /\
      w_files w' = w_files w /\
      w_environ w' = w_environ w /\
      w_net w' = w_net w /\
      w_stdout w' = w_stdout w ++ out.
Proof.
  exact (stdout_only ["clog"]).
Defined.

(** C7.  The exit status and the text printed are a function of the
    argument list alone: the same list gives the same status and the same
    output in every world, whatever its environment variables, files,
    pending input and earlier output. *)
Theorem deterministic_in_arguments (args : list string) :
  exists (st : Z) (out : string),
    forall w : world, run args w = Some (st, emit out w).
Proof.
  destruct (run_shape args) as (st & out & _ & _ & _ & _ & Hrun).
  now exists st, out.
Qed.

(** C8.  The two positional arguments are echoed unchanged, whatever
    characters they hold: in the two calls of [printf] the token is the
    datum of the fixed [%s] format and is never scanned for directives, so
    the run prints the prefix, the token and a newline. *)
Theorem echo_verbatim (name a1 a2 : string) (rest : list string) (w : world) :
  nul_free a1 = true ->
  nul_free a2 = true ->
  format (c_str ("input dir: %s" ++ LF)) [VStr (Ptr a1)]
  = Some ("input dir: " ++ a1 ++ LF) /\
  format (c_str ("output dir: %s" ++ LF)) [VStr (Ptr a2)]
  = Some ("output dir: " ++ a2 ++ LF) /\
  run (name :: a1 :: a2 :: rest) w
  = Some (0, emit ("input dir: " ++ a1 ++ LF
                   ++ "output dir: " ++ a2 ++ LF) w).
Proof.
  intros H1 H2.
  rewrite format_input_dir, format_output_dir, run_ge3.
  rewrite (c_str_nul_free a1 H1), (c_str_nul_free a2 H2).
  repeat split.
Qed.

Lemma echo_verbatim_witness :
  format (c_str ("input dir: %s" ++ LF)) [VStr (Ptr "%s%n 100%")]
  = Some ("input dir: %s%n 100%" ++ LF) /\
  format (c_str ("output dir: %s" ++ LF)) [VStr (Ptr "a b%d\c")]
  = Some ("output dir: a b%d\c" ++ LF) /\
  run ["clog"; "%s%n 100%"; "a b%d\c"] w0
  = Some (0, emit ("input dir: %s%n 100%" ++ LF
                   ++ "output dir: a b%d\c" ++ LF) w0).
Proof.
  apply (echo_verbatim "clog" "%s%n 100%" "a b%d\c" [] w0); reflexivity.
Defined.

(** C9.  The invocation name is counted but never read: two invocations
    whose argument lists differ only in the token at position 0 have the
    same standard output and the same exit status. *)
Theorem invocation_name_ignored (name1 name2 : string) (rest : list string)
    (w : world) :
  run (name1 :: rest) w = run (name2 :: rest) w.
Proof.
  destruct rest as [| a1 [| a2 rest]];
    rewrite ?run_ge3, ?run_lt3 by (cbn; lia); reflexivity.
Qed.

(** C10.  The check counts arguments and does not look at them: with two
    empty positional arguments the count is not below 3, the run prints
    [input dir: ] and [output dir: ] with nothing after the prefix, and the
    exit status is 0. *)
Theorem empty_arguments_accepted (name : string) (w : world) :
  (Z.of_nat (List.length [name; ""; ""]) <? 3)%Z = false /\
  run [name; ""; ""] w
  = Some (0, emit ("input dir: " ++ LF ++ "output dir: " ++ LF) w).
Proof.
  split; [reflexivity | apply run_ge3].
Qed.

(** * Further properties of [main] *)

(** ** More on strings *)

Lemma length_append (a b : string) :
  String.length (a ++ b) = (String.length a + String.length b)%nat.
Proof.
  induction a as [| c a IH]; simpl; [reflexivity | now rewrite IH].
Qed.

Lemma lf_free_cons (c : ascii) (s : string) :
  lf_free (String c s) = true ->
  Ascii.eqb c (ascii_of_nat 10) = false /\ lf_free s = true.
Proof.
  unfold lf_free. simpl.
  destruct (Ascii.eqb c (ascii_of_nat 10)); simpl; intros H;
    [discriminate H | now split].
Qed.

(** Two one-line texts, each followed by a newline and more text, agree
    only when the lines agree and the remainders agree. *)
Lemma first_line_inj (a b x y : string) :
  lf_free a = true -> lf_free b = true ->
  a ++ LF ++ x = b ++ LF ++ y -> a = b /\ x = y.
Proof.
  revert b. induction a as [| c a IH]; intros [| d b] Ha Hb H.
  - simpl in H. injection H as H. now split.
  - apply lf_free_cons in Hb. destruct Hb as [Hd _].
    simpl in H. injection H as H _. subst d. discriminate Hd.
  - apply lf_free_cons in Ha. destruct Ha as [Hc _].
    simpl in H. injection H as H _. subst c. discriminate Hc.
  - apply lf_free_cons in Ha. apply lf_free_cons in Hb.
    simpl in H. injection H as Hcd H. subst d.
    destruct (IH b (proj2 Ha) (proj2 Hb) H) as [-> ->]. now split.
Qed.

(** A text is determined by what it is once a newline is put after it. *)
Lemma append_LF_inj (a b : string) : a ++ LF = b ++ LF -> a = b.
Proof.
  revert b. induction a as [| c a IH]; intros [| d b] H; simpl in H.
  - reflexivity.
  - injection H as _ H. destruct b; discriminate H.
  - injection H as _ H. destruct a; discriminate H.
  - injection H as -> H. now rewrite (IH b H).
Qed.

(** ** [main] called outside the loader's guarantee *)

(** With [argc] at least 3 and fewer than three elements in [argv], one of
    the two reads yields the null pointer or leaves the array, and the
    run has no defined result. *)
Lemma main_short_argv (argc : Z) (argv : list string) (w : world) :
  3 <= argc -> (List.length argv < 3)%nat ->
  runStateT (main argc argv) w = None.
Proof.
  intros H Hn. unfold main.
  destruct (Z.ltb_spec argc 3) as [Hlt | _]; [lia |].
  destruct argv as [| name [| a1 [| a2 rest]]]; cbn in Hn; try lia;
    reflexivity.
Qed.

Lemma run_ge3_loadable (args : list string) (w : world) :
  loadable args = true ->
  (3 <= List.length args)%nat ->
  run args w
  = Some (0, emit ("input dir: " ++ nth 0 (positional args) "" ++ LF
                   ++ "output dir: " ++ nth 1 (positional args) "" ++ LF) w).
Proof.
  intros Hl Hn.
  destruct args as [| name [| a1 [| a2 rest]]]; cbn in Hn; try lia.
  cbn in Hl. rewrite !andb_true_iff in Hl.
  destruct Hl as (_ & H1 & H2 & _).
  now rewrite run_ge3, (c_str_nul_free a1 H1), (c_str_nul_free a2 H2).
Qed.

(** The need for the one-line condition below: a newline inside the first
    argument can make two different pairs of arguments print the same
    text. *)
Example ambiguous_output :
  run ["clog"; "x" ++ LF ++ "output dir: y"; "z"] w0
  = run ["clog"; "x"; "y" ++ LF ++ "output dir: z"] w0.
Proof. reflexivity. Qed.

(** X1.  [main] has a defined result exactly when [argc] is below 3 or
    [argv] holds at least three tokens: the test on [argc] is the only
    guard of the reads of [argv[1]] and [argv[2]], so a caller that passes
    [argc >= 3] with a shorter [argv] gets undefined behaviour, and any
    [argc] below 3 (zero and negative values included) is safe whatever
    [argv] is. *)
Theorem main_defined_iff (argc : Z) (argv : list string) (w : world) :
  (exists r : Z * world, runStateT (main argc argv) w = Some r)
  <-> (argc < 3 \/ (3 <= List.length argv)%nat).
Proof.
  split.
  - intros [r Hr].
    destruct (Z.lt_ge_cases argc 3) as [Hlt | Hge]; [now left | right].
    destruct (Nat.lt_ge_cases (List.length argv) 3) as [Hs | Hl];
      [| exact Hl].
    rewrite (main_short_argv argc argv w Hge Hs) in Hr. discriminate Hr.
  - intros [Hlt | Hl].
    + eexists. now apply main_usage.
    + destruct (Z.lt_ge_cases argc 3) as [Hlt | Hge];
        [eexists; now apply main_usage |].
      destruct argv as [| name [| a1 [| a2 rest]]]; cbn in Hl; try lia.
      eexists. now apply (main_echo argc _ w a1 a2).
Qed.

Lemma main_defined_iff_witness :
  (exists r : Z * world, runStateT (main (-1) []) w0 = Some r) /\
  ~ (exists r : Z * world, runStateT (main 3 ["clog"; "a"]) w0 = Some r).
Proof.
  split.
  - apply (main_defined_iff (-1) [] w0). left. lia.
  - intros H. apply (main_defined_iff 3 ["clog"; "a"] w0) in H.
    cbn in H. lia.
Defined.

(** X2.  The number of lines a run prints: one for the usage message;
    on the other branch two plus the newlines inside the two echoed
    arguments, so exactly two lines only when neither argument holds a
    newline. *)
Theorem output_line_count (args : list string) (w : world) :
  loadable args = true ->
  exists (st : Z) (out : string),
    run args w = Some (st, emit out w) /\
    newlines out
    = if (List.length args <? 3)%nat then 1%nat
      else (2 + newlines (nth 0 (positional args) "")
              + newlines (nth 1 (positional args) ""))%nat.
Proof.
  intros Hl.
  destruct (Nat.ltb_spec (List.length args) 3) as [Hs | Hg].
  - exists 1, (usage ++ LF). split; [now apply run_lt3 | reflexivity].
  - eexists. eexists. split; [now apply run_ge3_loadable |].
    generalize (nth 0 (positional args) "") (nth 1 (positional args) "").
    intros a1 a2. rewrite !newlines_append.
    change (newlines "input dir: ") with 0%nat.
    change (newlines "output dir: ") with 0%nat.
    change (newlines LF) with 1%nat. lia.
Qed.

Lemma output_line_count_witness :
  exists (st : Z) (out : string),
    run ["clog"; "a" ++ LF ++ "b"; "c"] w0 = Some (st, emit out w0) /\
    newlines out = 3%nat.
Proof.
  apply (output_line_count ["clog"; "a" ++ LF ++ "b"; "c"] w0).
  reflexivity.
Defined.

(** The text a run appends is read back from the worlds before and
    after. *)
Lemma run_eq_output (st st' : Z) (out out' : string) (w : world) :
  Some (st, emit out w) = Some (st', emit out' w) ->
  st = st' /\ out = out'.
Proof.
  intros H. split; [congruence |].
  apply (emit_inj out out' w). congruence.
Qed.

(** X3.  The converse of "later arguments are ignored": when the first
    positional argument of each invocation stays on one line, two
    invocations with two positional arguments or more that print the same
    text and end with the same status were given the same first two
    positional arguments.  The echoed values can therefore be read back
    from the output without ambiguity. *)
Theorem arguments_recoverable (args args' : list string) (w : world) :
  loadable args = true ->
  loadable args' = true ->
  (3 <= List.length args)%nat ->
  lf_free (nth 0 (positional args) "") = true ->
  lf_free (nth 0 (positional args') "") = true ->
  run args w = run args' w ->
  firstn 2 (positional args) = firstn 2 (positional args').
Proof.
  intros Hl Hl' Hn Hf Hf' H.
  destruct args as [| name [| a1 [| a2 rest]]]; cbn in Hn; try lia.
  rewrite (run_ge3_loadable _ w Hl) in H by (cbn; lia).
  destruct (Nat.lt_ge_cases (List.length args') 3) as [Hs | Hg].
  - rewrite (run_lt3 args' w Hs) in H.
    apply run_eq_output in H. destruct H as [H _]. discriminate H.
  - rewrite (run_ge3_loadable _ w Hl' Hg) in H.
    destruct args' as [| name' [| b1 [| b2 rest']]]; cbn in Hg; try lia.
    cbn [positional tl nth firstn] in *.
    apply run_eq_output in H. destruct H as [_ H].
    apply (append_inj_r "input dir: ") in H.
    apply (first_line_inj a1 b1 _ _ Hf Hf') in H. destruct H as [-> H].
    apply (append_inj_r "output dir: ") in H.
    apply append_LF_inj in H. now subst b2.
Qed.

Lemma arguments_recoverable_witness :
  firstn 2 (positional ["clog"; "a"; "b"; "c"])
  = firstn 2 (positional ["other"; "a"; "b"]).
Proof.
  apply (arguments_recoverable
           ["clog"; "a"; "b"; "c"] ["other"; "a"; "b"] w0);
    try reflexivity.
  cbn; lia.
Defined.

(** X4.  The number of bytes a run appends to standard output: 37 for
    the usage message, and on the other branch 25 more than the two
    echoed arguments together. *)
Theorem output_size (args : list string) (w : world) :
  loadable args = true ->
  exists (st : Z) (out : string),
    run args w = Some (st, emit out w) /\
    String.length out
    = if (List.length args <? 3)%nat then 37%nat
      else (25 + String.length (nth 0 (positional args) "")
               + String.length (nth 1 (positional args) ""))%nat.
Proof.
  intros Hl.
  destruct (Nat.ltb_spec (List.length args) 3) as [Hs | Hg].
  - exists 1, (usage ++ LF). split; [now apply run_lt3 | reflexivity].
  - eexists. eexists. split; [now apply run_ge3_loadable |].
    generalize (nth 0 (positional args) "") (nth 1 (positional args) "").
    intros a1 a2. rewrite !length_append.
    change (String.length "input dir: ") with 11%nat.
    change (String.length "output dir: ") with 12%nat.
    change (String.length LF) with 1%nat. lia.
Qed.

Lemma output_size_witness :
  exists (st : Z) (out : string),
    run ["clog"; "/tmp/in"; "/tmp/out"] w0 = Some (st, emit out w0) /\
    String.length out = 40%nat.
Proof.
  apply (output_size ["clog"; "/tmp/in"; "/tmp/out"] w0). reflexivity.
Defined.

(** X5.  Whatever the arguments, the text a run prints ends with a
    newline: both branches finish their last line. *)
Theorem output_ends_with_newline (args : list string) (w : world) :
  exists (st : Z) (body : string),
    run args w = Some (st, emit (body ++ LF) w).
Proof.
  destruct (Nat.lt_ge_cases (List.length args) 3) as [Hs | Hg].
  - exists 1, usage. now apply run_lt3.
  - destruct args as [| name [| a1 [| a2 rest]]]; cbn in Hg; try lia.
    exists 0, ("input dir: " ++ c_str a1 ++ LF ++ "output dir: " ++ c_str a2).
    rewrite run_ge3. do 3 f_equal.
    cbn [append]. now rewrite !append_assoc.
Qed.
